(** * The Equation click-counter widget

    A shallow embedding of [src/app/(home)/components/Equation/Equation.tsx]:
    a React function component with two [useState<number>] cells, two
    [useCallback] click handlers and a sum computed on every render.

    The development has three layers:
    - [Number]: JavaScript [number] values, which are IEEE-754 binary64,
      as the Standard Library's [SpecFloat] specifies them, with [+] and
      [Object.is];
    - [React]: the hooks the component calls ([useState], [useCallback]),
      as a small state-and-failure monad over the hook cells of the
      component instance.  React is a dependency of the repository, not
      part of it: the hooks follow their documented behaviour;
    - [Widget]: the component itself, click dispatch, and the properties
      of the resulting transition system. *)

From Stdlib Require Import ZArith List String Bool Lia Permutation SpecFloat.
Import ListNotations.

Open Scope string_scope.
Open Scope Z_scope.

(** ** JavaScript numbers *)

Module Number.

(** A TypeScript [number] is an IEEE-754 binary64: [SpecFloat]'s numbers
    at [prec = 53] bits of significand and [emax = 1024]. *)
Definition number := spec_float.

Definition prec : Z := 53.
Definition emax : Z := 1024.

(** An integer literal of the source denotes the double nearest to it. *)
Definition ofZ (z : Z) : number := binary_normalize prec emax z 0 false.

(** [a + b]. *)
Definition add (a b : number) : number := SFadd prec emax a b.

(** [Object.is(a, b)], which React uses to compare hook inputs: the same
    value, with [NaN] equal to itself and [+0] different from [-0]. *)
Definition objectIs (a b : number) : bool :=
  match a, b with
  | S754_zero s, S754_zero s' => Bool.eqb s s'
  | S754_infinity s, S754_infinity s' => Bool.eqb s s'
  | S754_nan, S754_nan => true
  | S754_finite s m e, S754_finite s' m' e' =>
      Bool.eqb s s' && Pos.eqb m m' && Z.eqb e e'
  | _, _ => false
  end.

(** The integer a number denotes, when it denotes one: what the screen
    shows for a counter. *)
Definition toZ (x : number) : option Z :=
  match x with
  | S754_zero _ => Some 0
  | S754_finite s m (Zneg k) =>
      if Z.pos m mod 2 ^ Z.pos k =? 0
      then Some (cond_Zopp s (Z.pos m / 2 ^ Z.pos k))
      else None
  | S754_finite s m e => Some (cond_Zopp s (Z.pos m * 2 ^ e))
  | S754_infinity _ | S754_nan => None
  end.

(** [2^53], the first integer whose successor is not a double.
    [Number.MAX_SAFE_INTEGER] is [limit - 1]. *)
Definition limit : Z := 2 ^ 53.

(** What rounding to the nearest double, ties to the even significand,
    does to an integer.  [k] is the number of low bits that do not fit. *)
Definition round_pos (z : Z) : Z :=
  let k := Z.log2 z + 1 - prec in
  if k <=? 0 then z
  else
    let q := Z.shiftr z k in
    let r := Z.land z (Z.ones k) in
    let half := Z.shiftl 1 (k - 1) in
    let m := match r ?= half with
             | Lt => q
             | Gt => q + 1
             | Eq => if Z.even q then q else q + 1
             end in
    Z.shiftl m k.

Definition round (z : Z) : Z :=
  match z with
  | Z0 => 0
  | Zpos _ => round_pos z
  | Zneg _ => - round_pos (- z)
  end.

End Number.

Abbreviation number := Number.number.

(** Auxiliary definitions that name the stages of [SpecFloat]'s rounding. *)

Module Rounding.
Import Number.

(** [m * 2^n] on positive numbers. *)
Definition shift_pos (m : positive) (n : nat) : positive := Nat.iter n xO m.

Definition unshifted (m : Z) : shr_record :=
  {| shr_m := m; shr_r := false; shr_s := false |}.

Definition digits (p : positive) : Z := Zpos (digits2_pos p).

(** The exponent of the double that [m * 2^e] rounds to. *)
Definition target (m : positive) (e : Z) : Z := fexp prec emax (digits m + e).

(** [binary_round] is [finish] after [first_shift]: align the significand
    to the target exponent, then round and check the range. *)
Definition first_shift (m : positive) (e : Z) : shr_record * Z :=
  let '(mz, ez) := shl_align m e (target m e) in
  shr_fexp prec emax (Zpos mz) ez loc_Exact.

Definition finish (sx : bool) (p : shr_record * Z) : spec_float :=
  let '(mrs', e') := p in
  let '(mrs'', e'') :=
    shr_fexp prec emax
      (round_nearest_even (shr_m mrs') (loc_of_shr_record mrs')) e' loc_Exact in
  match shr_m mrs'' with
  | Z0 => S754_zero sx
  | Zpos m => if e'' <=? emax - prec then S754_finite sx m e'' else S754_infinity sx
  | Zneg _ => S754_nan
  end.

End Rounding.

(** ** The hooks runtime *)

Module React.

(** The setter returned by [useState]: it is bound to the hook cell of
    the [useState] call that produced it. *)
Record Dispatch := { cell : nat }.

(** Both handlers of the component are arrow functions of the shape
    [() => { set(count + 1); }].  A closure is the pair of the variables
    it captured when it was created. *)
Record Closure := { setCount : Dispatch; count : number }.

(** One memoized hook of a component instance. *)
Inductive Hook :=
| StateHook (memoizedState : number) (queue : list number)
| CallbackHook (callback : Closure) (deps : list number).

(** What a render threads through the hook calls: the cells of the
    previous render that are still to be visited ([None] while mounting)
    and the cells of the render in progress. *)
Record RenderState := {
  current : option (list Hook);
  workInProgress : list Hook
}.

(** A render either fails (the hooks were called in another order than
    the cells were created) or returns a value and the new state. *)
Definition Render (A : Type) : Type := RenderState -> option (A * RenderState).

Definition ret {A} (a : A) : Render A := fun rs => Some (a, rs).

Definition bind {A B} (c : Render A) (k : A -> Render B) : Render B :=
  fun rs => match c rs with
            | Some (a, rs') => k a rs'
            | None => None
            end.

Definition push (h : Hook) (next : option (list Hook)) (rs : RenderState) : RenderState :=
  {| current := next; workInProgress := workInProgress rs ++ [h] |}.

(** A state cell applies its queued updates in order; the component only
    queues plain values, so the last one wins. *)
Definition processQueue (s : number) (queue : list number) : number :=
  fold_left (fun _ v => v) queue s.

Definition useState (initialState : number) : Render (number * Dispatch) :=
  fun rs =>
    let d := {| cell := List.length (workInProgress rs) |} in
    match current rs with
    | None =>
        Some ((initialState, d), push (StateHook initialState []) None rs)
    | Some (StateHook s queue :: rest) =>
        let s' := processQueue s queue in
        Some ((s', d), push (StateHook s' []) (Some rest) rs)
    | Some _ => None
    end.

Fixpoint areHookInputsEqual (next prev : list number) : bool :=
  match next, prev with
  | [], _ | _, [] => true
  | a :: next', b :: prev' => Number.objectIs a b && areHookInputsEqual next' prev'
  end.

Definition useCallback (callback : Closure) (deps : list number) : Render Closure :=
  fun rs =>
    match current rs with
    | None =>
        Some (callback, push (CallbackHook callback deps) None rs)
    | Some (CallbackHook prevCallback prevDeps :: rest) =>
        if areHookInputsEqual deps prevDeps
        then Some (prevCallback, push (CallbackHook prevCallback prevDeps) (Some rest) rs)
        else Some (callback, push (CallbackHook callback deps) (Some rest) rs)
    | Some _ => None
    end.

Fixpoint enqueue (n : nat) (v : number) (hooks : list Hook) : option (list Hook) :=
  match n, hooks with
  | O, StateHook s queue :: rest => Some (StateHook s (queue ++ [v]) :: rest)
  | S n', h :: rest => option_map (cons h) (enqueue n' v rest)
  | _, _ => None
  end.

(** Calling a setter queues the value on its cell. *)
Definition dispatchSetState (d : Dispatch) (v : number) (hooks : list Hook)
  : option (list Hook) :=
  enqueue (cell d) v hooks.

(** The elements the component renders. *)
Inductive Node :=
| Text (glyph : string)
| Div (className : string) (onClick : option Closure) (children : number).

End React.

Declare Scope render_scope.
Delimit Scope render_scope with render.
Notation "x <- c ;; k" := (React.bind c (fun x => k))
(at level 61, c at next level, right associativity) : render_scope.
Notation "' pat <- c ;; k" := (React.bind c (fun x => match x with pat => k end))
(at level 61, pat pattern, c at next level, right associativity) : render_scope.

(** ** The component *)

Module Widget.
Import React.
Local Open Scope render_scope.

(** [Equation()], statement by statement. *)
Definition Equation : Render (list Node) :=
  '(leftCount, setLeftCount) <- useState (Number.ofZ 0) ;;
  '(middleCount, setMiddleCount) <- useState (Number.ofZ 0) ;;
  updateLeftCount <-
    useCallback {| setCount := setLeftCount; count := leftCount |} [leftCount] ;;
  updateMiddleCount <-
    useCallback {| setCount := setMiddleCount; count := middleCount |} [middleCount] ;;
  let totalCount := Number.add leftCount middleCount in
  ret [ Div "sample-box-left" (Some updateLeftCount) leftCount;
        Text "+";
        Div "sample-box-middle" (Some updateMiddleCount) middleCount;
        Text "=";
        Div "sample-box-right" None totalCount ].

(** A mounted component: its hook cells and what it last rendered. *)
Record Instance := { hooks : list Hook; view : list Node }.

(** Run the component function over the cells of the previous render.
    A render that leaves cells of the previous one unvisited fails, as one
    that asks for more cells than there were does in [useState] and
    [useCallback]. *)
Definition render (prev : option (list Hook)) : option Instance :=
  match Equation {| current := prev; workInProgress := [] |} with
  | Some (v, rs) =>
      match current rs with
      | Some (_ :: _) => None
      | _ => Some {| hooks := workInProgress rs; view := v |}
      end
  | None => None
  end.

Definition mount : option Instance := render None.

(** Running a handler: [set(count + 1)] with the captured variables. *)
Definition call (f : Closure) (hs : list Hook) : option (list Hook) :=
  dispatchSetState (setCount f) (Number.add (count f) (Number.ofZ 1)) hs.

(** The three boxes of the rendered surface. *)
Inductive Region := LeftBox | MiddleBox | RightBox.

Definition className_of (r : Region) : string :=
  match r with
  | LeftBox => "sample-box-left"
  | MiddleBox => "sample-box-middle"
  | RightBox => "sample-box-right"
  end.

Fixpoint findDiv (name : string) (v : list Node) : option (option Closure * number) :=
  match v with
  | [] => None
  | Div c h n :: rest => if String.eqb c name then Some (h, n) else findDiv name rest
  | Text _ :: rest => findDiv name rest
  end.

(** What a click does: nothing when the box has no handler; otherwise the
    handler runs and the component renders again.  (React may skip that
    render when the queued value is the current one; rendering again then
    gives the same instance, see [render_instance].) *)
Inductive Outcome :=
| Ignored
| Updated (next : Instance)
| Crashed.

Definition click (r : Region) (i : Instance) : Outcome :=
  match findDiv (className_of r) (view i) with
  | Some (Some f, _) =>
      match call f (hooks i) with
      | Some hs =>
          match render (Some hs) with
          | Some i' => Updated i'
          | None => Crashed
          end
      | None => Crashed
      end
  | _ => Ignored
  end.

(** The instance on screen after a click. *)
Definition step (i : Instance) (r : Region) : Instance :=
  match click r i with
  | Updated i' => i'
  | _ => i
  end.

Definition run (clicks : list Region) (i : Instance) : Instance :=
  fold_left step clicks i.

(** The numbers in the three boxes. *)
Definition read (i : Instance) : option (number * number * number) :=
  match findDiv (className_of LeftBox) (view i),
        findDiv (className_of MiddleBox) (view i),
        findDiv (className_of RightBox) (view i) with
  | Some (_, l), Some (_, m), Some (_, t) => Some (l, m, t)
  | _, _, _ => None
  end.

(** The same, as the integers they denote: the decimal numerals that
    the three boxes show. *)
Definition display (i : Instance) : option (Z * Z * Z) :=
  match read i with
  | Some (l, m, t) =>
      match Number.toZ l, Number.toZ m, Number.toZ t with
      | Some a, Some b, Some c => Some (a, b, c)
      | _, _, _ => None
      end
  | None => None
  end.

(** The value held by the [n]-th hook cell, when it is a state cell. *)
Definition stateOf (n : nat) (i : Instance) : option number :=
  match nth_error (hooks i) n with
  | Some (StateHook s _) => Some s
  | _ => None
  end.

Definition leftCount (i : Instance) : option number := stateOf 0 i.
Definition middleCount (i : Instance) : option number := stateOf 1 i.

(** The states reachable from the mounted component by clicks. *)
Inductive reachable : Instance -> Prop :=
| reachable_mount i : mount = Some i -> reachable i
| reachable_click i r i' : reachable i -> click r i = Updated i' -> reachable i'.

(** The two counters a click can select, the box that carries the
    handler of each, and the integer in the state cell behind it. *)
Inductive Counter := LeftCounter | MiddleCounter.

Definition box (which : Counter) : Region :=
  match which with
  | LeftCounter => LeftBox
  | MiddleCounter => MiddleBox
  end.

Definition cellOf (which : Counter) (i : Instance) : option number :=
  match which with
  | LeftCounter => leftCount i
  | MiddleCounter => middleCount i
  end.

Definition valueOf (which : Counter) (i : Instance) : option Z :=
  match cellOf which i with
  | Some x => Number.toZ x
  | None => None
  end.

Definition increment (which : Counter) (i : Instance) : Outcome :=
  click (box which) i.

Definition Region_eq_dec (a b : Region) : {a = b} + {a <> b}.
Proof. decide equality. Defined.

(** How many clicks of a sequence landed on a box. *)
Definition clicksOn (r : Region) (clicks : list Region) : Z :=
  Z.of_nat (count_occ Region_eq_dec clicks r).

(** The instance whose state cells hold [x] and [y], rendered. *)
Definition instance_of (x y : number) : Instance :=
  {| hooks := [ StateHook x [];
                StateHook y [];
                CallbackHook {| setCount := {| cell := 0 |}; count := x |} [x];
                CallbackHook {| setCount := {| cell := 1 |}; count := y |} [y] ];
     view := [ Div "sample-box-left"
                 (Some {| setCount := {| cell := 0 |}; count := x |}) x;
               Text "+";
               Div "sample-box-middle"
                 (Some {| setCount := {| cell := 1 |}; count := y |}) y;
               Text "=";
               Div "sample-box-right" None (Number.add x y) ] |}.

(** The instance whose counters are the integers [l] and [m]. *)
Definition counting (l m : Z) : Instance :=
  instance_of (Number.ofZ l) (Number.ofZ m).

(** Counting up to [Number.limit] and staying there. *)
Definition saturate (z : Z) : Z := Z.min z Number.limit.

(** The integers a counter takes. *)
Definition in_range (a : Z) : Prop := 0 <= a <= Number.limit.

(** The invariant of the reachable instances: a freshly rendered
    instance, with empty queues, handlers that captured the current
    counters, and counters between [0] and [2^53]. *)
Definition tidy (i : Instance) : Prop :=
  exists l m, in_range l /\ in_range m /\ i = counting l m.

End Widget.

(** ** The page *)

Module Page.
Import React Widget.

(** A [div] with element children: what [Home] renders around
    [<Equation />]. *)
Record Container := {
  className : string;
  onClick : option Closure;
  children : list Node
}.

(** [Home()]: no hooks of its own, one [div] around the component. *)
Definition Home (equation : Instance) : Container :=
  {| className := "home-container";
     onClick := None;
     children := view equation |}.

(** Where a click lands: on a child of the container, or on the
    container itself. *)
Inductive Target := Child (n : nat) | Background.

(** The handlers a click meets while it bubbles from its target to the
    root, innermost first.  A text node is no event target: a click on a
    glyph lands on the container. *)
Definition bubble (page : Container) (t : Target) : list Closure :=
  let own :=
    match t with
    | Child n =>
        match nth_error (children page) n with
        | Some (Div _ (Some f) _) => [f]
        | _ => []
        end
    | Background => []
    end in
  own ++ match onClick page with
         | Some f => [f]
         | None => []
         end.

(** One click on the page: the handlers on the path run in order on the
    same hook cells, then the component renders once. *)
Definition dispatch (t : Target) (i : Instance) : Outcome :=
  match bubble (Home i) t with
  | [] => Ignored
  | fs =>
      match fold_left (fun hs f => match hs with
                                   | Some h => call f h
                                   | None => None
                                   end) fs (Some (hooks i)) with
      | Some hs =>
          match render (Some hs) with
          | Some i' => Updated i'
          | None => Crashed
          end
      | None => Crashed
      end
  end.

End Page.

Arguments Number.add : simpl never.
Arguments Number.ofZ : simpl never.
Arguments Number.objectIs : simpl never.

(** ** Facts about numbers *)

Module NumberFacts.
Import Number Rounding.

Lemma limit_eq : limit = 9007199254740992.
Proof. reflexivity. Qed.

(** Integers of at most 53 bits are doubles: rounding leaves them alone. *)
Lemma round_exact z : 0 <= z <= limit -> round z = z.
Proof.
  intros [Hz Hl]. destruct z as [|p|p]; [reflexivity| |lia].
  destruct (Z.eq_dec (Z.pos p) limit) as [->|Hne]; [reflexivity|].
  assert (Hlt : Z.pos p < 2 ^ 53) by (change (2 ^ 53) with limit; lia).
  apply Z.log2_lt_pow2 in Hlt; [|lia].
  unfold round, round_pos, prec.
  destruct (Z.leb_spec (Z.log2 (Z.pos p) + 1 - 53) 0); [reflexivity|lia].
Qed.

(** Between [2^53] and [2^54] the doubles are the even integers. *)
Lemma round_pos_wide z :
  limit <= z < 2 * limit ->
  round_pos z =
    if Z.even z then z
    else if Z.even (z / 2) then z - 1 else z + 1.
Proof.
  intros [Hlo Hhi].
  assert (Hlog : Z.log2 z = 53).
  { apply Z.log2_unique; [lia|]. rewrite limit_eq in Hlo, Hhi.
    change (2 ^ Z.succ 53) with 18014398509481984.
    change (2 ^ 53) with 9007199254740992. lia. }
  unfold round_pos, prec. rewrite Hlog.
  change (53 + 1 - 53) with 1. cbn [Z.leb Z.compare].
  rewrite (Z.shiftr_div_pow2 z 1), (Z.land_ones z 1).
  all: try lia.
  change (Z.shiftl 1 (1 - 1)) with 1. change (2 ^ 1) with 2.
  rewrite (Zeven_mod z).
  pose proof (Z.mod_pos_bound z 2 ltac:(lia)) as Hr.
  pose proof (Z.div_mod z 2 ltac:(lia)) as Hd.
  destruct (Z.eq_dec (z mod 2) 0) as [E|E].
  - rewrite E. cbn [Z.compare Z.eqb]. rewrite Z.shiftl_mul_pow2 by lia.
    change (2 ^ 1) with 2. lia.
  - assert (E1 : z mod 2 = 1) by lia. rewrite E1.
    cbn [Z.compare Z.eqb Pos.compare Pos.compare_cont Pos.eqb].
    destruct (Z.even (z / 2)); rewrite Z.shiftl_mul_pow2 by lia;
      change (2 ^ 1) with 2; lia.
Qed.

Lemma round_wide z :
  limit <= z <= 2 * limit ->
  round z = if Z.even z then z else if Z.even (z / 2) then z - 1 else z + 1.
Proof.
  intros [Hlo Hhi].
  destruct (Z.eq_dec z (2 * limit)) as [->|Hne]; [reflexivity|].
  assert (0 < z) by (rewrite limit_eq in Hlo; lia).
  destruct z as [|p|p]; try lia.
  apply round_pos_wide. lia.
Qed.

(** The sum of two counters is off by at most one. *)
Lemma round_close z : 0 <= z <= 2 * limit -> Z.abs (round z - z) <= 1.
Proof.
  intros [Hlo Hhi]. destruct (Z_le_gt_dec z limit).
  - rewrite round_exact by lia. lia.
  - rewrite round_wide by lia.
    destruct (Z.even z); [lia|]. destruct (Z.even (z / 2)); lia.
Qed.

(** *** [SpecFloat]'s rounding, stage by stage *)

Lemma binary_round_finish s m e :
  binary_round prec emax s m e = finish s (first_shift m e).
Proof.
  unfold binary_round, first_shift.
  destruct (shl_align m e _) as [mz ez]. reflexivity.
Qed.

Lemma iter_pos_nat {A} (f : A -> A) p : forall x, iter_pos f p x = Nat.iter (Pos.to_nat p) f x.
Proof.
  induction p as [p IH|p IH|]; intros x; cbn [iter_pos].
  - rewrite !IH, Pos2Nat.inj_xI. cbn [Nat.iter Nat.mul].
    rewrite Nat.add_0_r, <- Nat.iter_add. now rewrite <- Nat.iter_succ_r.
  - rewrite !IH, Pos2Nat.inj_xO. cbn [Nat.mul]. now rewrite Nat.add_0_r, Nat.iter_add.
  - reflexivity.
Qed.

Lemma shift_pos_add m a b : shift_pos (shift_pos m a) b = shift_pos m (b + a).
Proof. unfold shift_pos. now rewrite Nat.iter_add. Qed.

Lemma Pos_iter_shift m d : Pos.iter xO m d = shift_pos m (Pos.to_nat d).
Proof. apply Pos2Nat.inj_iter. Qed.

Lemma digits_shift m n : digits (shift_pos m n) = digits m + Z.of_nat n.
Proof.
  unfold digits. induction n as [|n IH]; [cbn; lia|].
  change (shift_pos m (S n)) with (xO (shift_pos m n)).
  cbn [digits2_pos]. lia.
Qed.

Lemma shift_pos_Z m n : Zpos (shift_pos m n) = Zpos m * 2 ^ Z.of_nat n.
Proof.
  induction n as [|n IH]; [cbn; lia|].
  change (shift_pos m (S n)) with (xO (shift_pos m n)).
  rewrite Nat2Z.inj_succ, Z.pow_succ_r, Pos2Z.inj_xO, IH by lia. lia.
Qed.

Lemma shift_pos_plus a b n :
  (shift_pos a n + shift_pos b n)%positive = shift_pos (a + b) n.
Proof.
  induction n as [|n IH]; [reflexivity|].
  change (shift_pos ?m (S n)) with (xO (shift_pos m n)).
  cbn [Pos.add]. now rewrite IH.
Qed.

(** Shifting right what was shifted left loses nothing. *)
Lemma shr_shift m n : forall i,
  Nat.iter n shr_1 (unshifted (Zpos (shift_pos m (n + i)))) = unshifted (Zpos (shift_pos m i)).
Proof.
  induction n as [|n IH]; intros i; [reflexivity|].
  rewrite Nat.iter_succ_r. 
  change (shift_pos m (S n + i)) with (xO (shift_pos m (n + i))).
  cbn [shr_1 unshifted orb]. apply IH.
Qed.

Lemma shr_nat mrs e n :
  0 <= n -> shr mrs e n = (Nat.iter (Z.to_nat n) shr_1 mrs, e + n).
Proof.
  intros Hn. destruct n as [|p|p]; [| |lia].
  - cbn. now rewrite Z.add_0_r.
  - cbn [shr]. now rewrite iter_pos_nat.
Qed.

Lemma shl_align_up m e t :
  t < e -> shl_align m e t = (shift_pos m (Z.to_nat (e - t)), t).
Proof.
  intros H. unfold shl_align. destruct (t - e) as [|p|p] eqn:E; try lia.
  rewrite Pos_iter_shift. do 2 f_equal. lia.
Qed.

Lemma shl_align_same m e t : e <= t -> shl_align m e t = (m, e).
Proof.
  intros H. unfold shl_align. destruct (t - e) as [|p|p] eqn:E; try lia; reflexivity.
Qed.

Lemma first_shift_spec m e :
  first_shift m e =
    if target m e <? e
    then (unshifted (Zpos (shift_pos m (Z.to_nat (e - target m e)))), target m e)
    else (Nat.iter (Z.to_nat (target m e - e)) shr_1 (unshifted (Zpos m)), target m e).
Proof.
  unfold first_shift.
  destruct (Z.ltb_spec (target m e) e) as [H|H].
  - rewrite shl_align_up by assumption.
    unfold shr_fexp. cbn [Zdigits2].
    change (Zpos (digits2_pos ?x)) with (digits x).
    rewrite digits_shift, Z2Nat.id by lia.
    replace (digits m + (e - target m e) + target m e) with (digits m + e) by lia.
    fold (target m e). rewrite Z.sub_diag. reflexivity.
  - rewrite shl_align_same by assumption.
    unfold shr_fexp. cbn [Zdigits2].
    change (Zpos (digits2_pos m)) with (digits m). fold (target m e).
    rewrite shr_nat by lia. cbn [shr_record_of_loc]. f_equal. lia.
Qed.

Lemma target_shift m k e : target (shift_pos m k) (e - Z.of_nat k) = target m e.
Proof. unfold target. rewrite digits_shift. f_equal. lia. Qed.

(** Scaling the significand and the exponent against each other does not
    change what is rounded. *)
Lemma first_shift_scale m k e :
  first_shift (shift_pos m k) (e - Z.of_nat k) = first_shift m e.
Proof.
  rewrite !first_shift_spec, target_shift.
  generalize (target m e). intros t.
  destruct (Z.ltb_spec t (e - Z.of_nat k)) as [H1|H1];
    destruct (Z.ltb_spec t e) as [H2|H2]; try lia.
  - rewrite shift_pos_add.
    replace (Z.to_nat (e - Z.of_nat k - t) + k)%nat with (Z.to_nat (e - t)) by lia.
    reflexivity.
  - rewrite <- (shr_shift m (Z.to_nat (t - (e - Z.of_nat k))) (Z.to_nat (e - t))).
    replace (Z.to_nat (t - (e - Z.of_nat k)) + Z.to_nat (e - t))%nat with k by lia.
    reflexivity.
  - replace (Z.to_nat (t - (e - Z.of_nat k))) with (Z.to_nat (t - e) + k)%nat by lia.
    rewrite Nat.iter_add. do 2 f_equal.
    pose proof (shr_shift m k 0) as H. rewrite Nat.add_0_r in H. exact H.
Qed.

Lemma binary_round_scale s m k e :
  binary_round prec emax s (shift_pos m k) (e - Z.of_nat k) = binary_round prec emax s m e.
Proof. now rewrite !binary_round_finish, first_shift_scale. Qed.

(** A significand of exactly 53 bits with an exponent in range is final. *)
Lemma finish_canonical s q t :
  digits q = prec -> -1074 <= t <= 971 ->
  finish s (unshifted (Zpos q), t) = S754_finite s q t.
Proof.
  intros Hd Ht. unfold finish, unshifted. cbn [shr_m loc_of_shr_record round_nearest_even].
  unfold shr_fexp. cbn [Zdigits2]. change (Zpos (digits2_pos q)) with (digits q).
  rewrite Hd.
  replace (fexp prec emax (prec + t) - t) with 0
    by (unfold fexp, emin, prec, emax; lia).
  cbn [shr shr_record_of_loc shr_m].
  destruct (Z.leb_spec t (emax - prec)) as [_|H]; [reflexivity|].
  unfold emax, prec in H. lia.
Qed.

(** The double of an integer of at most 53 bits: the integer, shifted
    left until it has 53 bits. *)
Lemma ofZ_small p :
  digits p <= prec ->
  ofZ (Zpos p) =
    S754_finite false (shift_pos p (Z.to_nat (prec - digits p))) (digits p - prec).
Proof.
  intros Hd. unfold ofZ. cbn [binary_normalize].
  rewrite binary_round_finish, first_shift_spec.
  assert (Ht : target p 0 = digits p - prec).
  { unfold target, fexp, emin, prec, emax, digits in *. lia. }
  rewrite Ht.
  assert (Hfin : forall n, n = Z.to_nat (prec - digits p) ->
            finish false (unshifted (Zpos (shift_pos p n)), digits p - prec) =
            S754_finite false (shift_pos p n) (digits p - prec)).
  { intros n ->. apply finish_canonical.
    - rewrite digits_shift. unfold prec in *. lia.
    - unfold digits, prec in *. lia. }
  destruct (Z.ltb_spec (digits p - prec) 0) as [H|H].
  - rewrite Hfin by lia. do 2 f_equal. lia.
  - replace (Z.to_nat (digits p - prec - 0)) with 0%nat by lia.
    cbn [Nat.iter]. replace (Z.to_nat (prec - digits p)) with 0%nat by lia.
    apply (Hfin 0%nat). lia.
Qed.

Lemma digits_bounds p : 2 ^ (digits p - 1) <= Zpos p < 2 ^ digits p.
Proof.
  unfold digits. induction p as [p IH|p IH|]; cbn [digits2_pos].
  - rewrite Pos2Z.inj_succ.
    replace (Z.succ (Zpos (digits2_pos p)) - 1) with (Z.succ (Zpos (digits2_pos p) - 1)) by lia.
    rewrite !Z.pow_succ_r by lia. lia.
  - rewrite Pos2Z.inj_succ.
    replace (Z.succ (Zpos (digits2_pos p)) - 1) with (Z.succ (Zpos (digits2_pos p) - 1)) by lia.
    rewrite !Z.pow_succ_r by lia. lia.
  - cbn. lia.
Qed.

Lemma digits_unique p d : 2 ^ (d - 1) <= Zpos p < 2 ^ d -> digits p = d.
Proof.
  intros [Hlo Hhi]. pose proof (digits_bounds p) as [Dlo Dhi].
  assert (0 < digits p) by (unfold digits; lia).
  destruct (Z.lt_trichotomy (digits p) d) as [H1|[H1|H1]]; [|exact H1|].
  - assert (2 ^ digits p <= 2 ^ (d - 1)) by (apply Z.pow_le_mono_r; lia). lia.
  - assert (0 < d).
    { destruct (Z_lt_le_dec 0 d); [assumption|].
      destruct d as [|d|d]; try lia; try (cbn in Hhi; lia).
      all: rewrite Z.pow_neg_r in Hhi by lia; lia. }
    assert (2 ^ d <= 2 ^ (digits p - 1)) by (apply Z.pow_le_mono_r; lia). lia.
Qed.

Lemma digits_small p : Zpos p < limit -> digits p <= prec.
Proof.
  intros H. pose proof (digits_bounds p) as [Dlo _].
  destruct (Z_le_gt_dec (digits p) prec) as [|Hgt]; [assumption|].
  assert (2 ^ 53 <= 2 ^ (digits p - 1)) by (apply Z.pow_le_mono_r; unfold prec in *; lia).
  unfold limit in H. lia.
Qed.

Lemma shift_pos_xO q n : shift_pos (xO q) n = shift_pos q (S n).
Proof.
  change (xO q) with (shift_pos q 1). rewrite shift_pos_add. f_equal. lia.
Qed.

(** The double of a counter, aligned to a lower exponent, is the counter
    shifted left. *)
Lemma ofZ_aligned p :
  Zpos p <= limit ->
  exists m e,
    ofZ (Zpos p) = S754_finite false m e /\
    (Zpos p < limit -> e <= 0) /\
    forall ez, ez <= e -> ez <= 0 ->
      fst (shl_align m e ez) = shift_pos p (Z.to_nat (- ez)).
Proof.
  intros Hp. destruct (Z.eq_dec (Zpos p) limit) as [E|E].
  - injection E as ->. exists (2 ^ 52)%positive, 1. split; [reflexivity|].
    split; [unfold limit; lia|]. intros ez _ Hez.
    rewrite shl_align_up by lia. cbn [fst].
    change (2 ^ 53)%positive with (xO (2 ^ 52)%positive).
    rewrite shift_pos_xO. f_equal. lia.
  - assert (Hd : digits p <= prec) by (apply digits_small; lia).
    assert (0 < digits p) by (unfold digits; lia).
    exists (shift_pos p (Z.to_nat (prec - digits p))), (digits p - prec).
    split; [now apply ofZ_small|]. split; [lia|].
    intros ez H1 H2. destruct (Z.eq_dec ez (digits p - prec)) as [->|Hne].
    + rewrite shl_align_same by lia. cbn [fst]. f_equal. lia.
    + rewrite shl_align_up by lia. cbn [fst]. rewrite shift_pos_add. f_equal. lia.
Qed.

(** On counters, [+] gives the double of the exact sum. *)
Theorem add_ofZ a b :
  0 <= a <= limit -> 0 <= b <= limit ->
  add (ofZ a) (ofZ b) = ofZ (a + b).
Proof.
  intros [Ha0 Ha] [Hb0 Hb]. unfold add.
  destruct a as [|pa|pa]; [|clear Ha0|lia]; destruct b as [|pb|pb]; try lia; clear Hb0.
  - reflexivity.
  - cbn [Z.add]. destruct (ofZ_aligned pb Hb) as (m & e & -> & _). reflexivity.
  - cbn [Z.add]. destruct (ofZ_aligned pa Ha) as (m & e & -> & _). reflexivity.
  - destruct (Z.eq_dec (Zpos pa) limit) as [Ea|Ea];
      [destruct (Z.eq_dec (Zpos pb) limit) as [Eb|Eb]|].
    + injection Ea as ->. injection Eb as ->. reflexivity.
    + destruct (ofZ_aligned pa Ha) as (ma & ea & -> & Hea & Aa).
      destruct (ofZ_aligned pb Hb) as (mb & eb & -> & Heb & Ab).
      assert (Heb' : eb <= 0) by (apply Heb; lia).
      cbn [SFadd cond_Zopp]. rewrite Aa, Ab by lia.
      cbn [Z.add]. rewrite shift_pos_plus. cbn [binary_normalize].
      replace (Z.min ea eb) with (0 - Z.of_nat (Z.to_nat (- Z.min ea eb))) at 2 by lia.
      apply binary_round_scale.
    + destruct (ofZ_aligned pa Ha) as (ma & ea & -> & Hea & Aa).
      destruct (ofZ_aligned pb Hb) as (mb & eb & -> & Heb & Ab).
      assert (Hea' : ea <= 0) by (apply Hea; lia).
      cbn [SFadd cond_Zopp]. rewrite Aa, Ab by lia.
      cbn [Z.add]. rewrite shift_pos_plus. cbn [binary_normalize].
      replace (Z.min ea eb) with (0 - Z.of_nat (Z.to_nat (- Z.min ea eb))) at 2 by lia.
      apply binary_round_scale.
Qed.

(** A rounded significand of exactly 53 bits with an exponent in range is
    final. *)
Lemma finish_rounded s mrs t r :
  round_nearest_even (shr_m mrs) (loc_of_shr_record mrs) = Zpos r ->
  digits r = prec -> -1074 <= t <= 971 ->
  finish s (mrs, t) = S754_finite s r t.
Proof.
  intros Hr Hd Ht. unfold finish. rewrite Hr.
  unfold shr_fexp. cbn [Zdigits2]. change (Zpos (digits2_pos r)) with (digits r).
  rewrite Hd.
  replace (fexp prec emax (prec + t) - t) with 0
    by (unfold fexp, emin, prec, emax; lia).
  cbn [shr shr_record_of_loc shr_m].
  destruct (Z.leb_spec t (emax - prec)) as [_|H]; [reflexivity|].
  unfold emax, prec in H. lia.
Qed.

(** Integers of at most 53 bits are doubles. *)
Lemma toZ_small p :
  digits p <= prec -> toZ (ofZ (Zpos p)) = Some (Zpos p).
Proof.
  intros Hd. rewrite ofZ_small by assumption. unfold toZ.
  assert (0 < digits p) by (unfold digits; lia).
  destruct (digits p - prec) as [|k|k] eqn:E; [|lia|].
  - replace (Z.to_nat (prec - digits p)) with 0%nat by lia.
    change (shift_pos p 0) with p. cbn [cond_Zopp]. f_equal. lia.
  - rewrite shift_pos_Z, Z2Nat.id by lia.
    replace (prec - digits p) with (Zpos k) by lia.
    assert (0 < 2 ^ Zpos k) by (apply Z.pow_pos_nonneg; lia).
    rewrite Z.mod_mul, Z.div_mul by lia. reflexivity.
Qed.

Lemma digits_53 q : limit <= 2 * Zpos q < 2 * limit -> digits q = prec.
Proof.
  intros H. apply digits_unique. rewrite limit_eq in H.
  change (2 ^ (prec - 1)) with 4503599627370496.
  change (2 ^ prec) with 9007199254740992. lia.
Qed.

(** Integers of 54 bits lose their last bit, to the nearest even
    significand. *)
Lemma toZ_wide p :
  limit <= Zpos p < 2 * limit ->
  toZ (ofZ (Zpos p)) = Some (round_pos (Zpos p)).
Proof.
  intros Hp. rewrite round_pos_wide by assumption.
  pose proof limit_eq as HL.
  assert (Hd : digits p = 54).
  { apply digits_unique.
    change (2 ^ (54 - 1)) with 9007199254740992.
    change (2 ^ 54) with 18014398509481984. lia. }
  unfold ofZ. cbn [binary_normalize].
  rewrite binary_round_finish, first_shift_spec.
  assert (Ht : target p 0 = 1) by (unfold target; rewrite Hd; reflexivity).
  rewrite Ht. change (1 <? 0) with false. cbv iota.
  change (Z.to_nat (1 - 0)) with 1%nat.
  change (Nat.iter 1 shr_1 ?x) with (shr_1 x).
  destruct p as [q|q|]; [| |lia].
  - (* odd: the dropped bit is a tie *)
    assert (Hq : Z.pos q~1 / 2 = Z.pos q).
    { symmetry. apply Z.div_unique with (r := 1); lia. }
    rewrite Hq. change (Z.even (Z.pos q~1)) with false. cbv iota.
    destruct (Z.eq_dec (Z.pos q + 1) limit) as [E|E].
    + assert (q = 9007199254740991%positive) as -> by lia.
      reflexivity.
    + destruct (Z.even (Z.pos q)) eqn:Ev.
      * rewrite (finish_rounded _ _ 1 q).
        -- cbn [toZ cond_Zopp]. f_equal. lia.
        -- cbn [shr_1 unshifted shr_m loc_of_shr_record orb round_nearest_even].
           now rewrite Ev.
        -- apply digits_53. lia.
        -- lia.
      * rewrite (finish_rounded _ _ 1 (q + 1)).
        -- cbn [toZ cond_Zopp]. f_equal. lia.
        -- cbn [shr_1 unshifted shr_m loc_of_shr_record orb round_nearest_even].
           now rewrite Ev.
        -- apply digits_53. lia.
        -- lia.
  - (* even: the dropped bit is zero *)
    change (Z.even (Z.pos q~0)) with true. cbv iota.
    change (shr_1 (unshifted (Z.pos q~0))) with (unshifted (Z.pos q)).
    rewrite finish_canonical.
    + cbn [toZ cond_Zopp]. f_equal. lia.
    + apply digits_53. lia.
    + lia.
Qed.

(** The double an integer rounds to denotes [round] of the integer, on
    all sums of two counters. *)
Theorem toZ_ofZ z :
  0 <= z <= 2 * limit -> toZ (ofZ z) = Some (round z).
Proof.
  intros [Hlo Hhi]. destruct z as [|p|p]; [reflexivity| |lia].
  destruct (Z.eq_dec (Zpos p) (2 * limit)) as [E|E].
  - assert (p = 18014398509481984%positive) as -> by (rewrite limit_eq in E; lia).
    reflexivity.
  - destruct (Z_lt_le_dec (Zpos p) limit) as [Hs|Hw].
    + rewrite toZ_small by now apply digits_small.
      rewrite round_exact by lia. reflexivity.
    + apply toZ_wide. lia.
Qed.

(** Two counters are the same double only when they are equal, so
    [Object.is] on doubles is [objectIs] on the integers. *)
Corollary ofZ_inj a b :
  0 <= a <= limit -> 0 <= b <= limit -> ofZ a = ofZ b -> a = b.
Proof.
  intros Ha Hb E. apply (f_equal toZ) in E.
  rewrite limit_eq in Ha, Hb.
  rewrite !toZ_ofZ in E by (rewrite limit_eq; lia).
  rewrite !round_exact in E by (rewrite limit_eq; lia). now injection E.
Qed.

(** The sum of two counters, as an integer. *)
Theorem toZ_add a b :
  0 <= a <= limit -> 0 <= b <= limit ->
  toZ (add (ofZ a) (ofZ b)) = Some (round (a + b)).
Proof.
  intros Ha Hb. rewrite add_ofZ by assumption.
  apply toZ_ofZ. lia.
Qed.

Lemma toZ_ofZ_exact z : 0 <= z <= limit -> toZ (ofZ z) = Some z.
Proof.
  intros H. pose proof limit_eq. rewrite toZ_ofZ by lia.
  now rewrite round_exact.
Qed.

(** Past [2^53] the next integer is not a double. *)
Lemma ofZ_limit_succ : ofZ (limit + 1) = ofZ limit.
Proof. reflexivity. Qed.

(** Adding one counts up to [limit] and then stays there. *)
Lemma add_one a :
  0 <= a <= limit -> add (ofZ a) (ofZ 1) = ofZ (Z.min (a + 1) limit).
Proof.
  intros Ha. pose proof limit_eq. rewrite add_ofZ by lia.
  destruct (Z.eq_dec a limit) as [->|Hne].
  - replace (Z.min (limit + 1) limit) with limit by lia. apply ofZ_limit_succ.
  - replace (Z.min (a + 1) limit) with (a + 1) by lia. reflexivity.
Qed.

Lemma objectIs_refl a : objectIs a a = true.
Proof.
  destruct a as [s|s| |s m e]; unfold objectIs;
    rewrite ?Bool.eqb_reflx, ?Pos.eqb_refl, ?Z.eqb_refl; reflexivity.
Qed.

Lemma objectIs_eq a b : objectIs a b = true -> a = b.
Proof.
  destruct a as [s|s| |s m e], b as [s'|s'| |s' m' e']; unfold objectIs;
    try discriminate; try reflexivity.
  - intros H. apply Bool.eqb_prop in H. now subst.
  - intros H. apply Bool.eqb_prop in H. now subst.
  - intros H. apply andb_prop in H as [H He]. apply andb_prop in H as [Hs Hm].
    apply Bool.eqb_prop in Hs. apply Pos.eqb_eq in Hm. apply Z.eqb_eq in He.
    now subst.
Qed.

End NumberFacts.

(** ** Facts about the component *)

Module WidgetFacts.
Import React Widget NumberFacts.

Lemma mount_instance : mount = Some (counting 0 0).
Proof. reflexivity. Qed.

(** Run the hook calls of a render, deciding the comparisons of
    dependencies that compare a number with itself. *)
Ltac run_hooks :=
  unfold click, call, render, Equation, bind, useState, useCallback, instance_of;
  cbn; repeat (rewrite objectIs_refl; cbn).

(** Rendering again without an update in between changes nothing. *)
Lemma render_instance x y :
  render (Some (hooks (instance_of x y))) = Some (instance_of x y).
Proof. run_hooks. reflexivity. Qed.

(** A click on a counter's box: the handler queues [count + 1] on its
    cell, and the next render stores it, shows it, and hands out a
    handler that captured it.  When [count + 1] is [count], the previous
    handler is kept, which captured the same number. *)
Lemma click_left x y :
  click LeftBox (instance_of x y) =
    Updated (instance_of (Number.add x (Number.ofZ 1)) y).
Proof.
  run_hooks. rewrite andb_true_r.
  destruct (Number.objectIs (Number.add x (Number.ofZ 1)) x) eqn:E;
    run_hooks; [|reflexivity].
  apply objectIs_eq in E. rewrite E. reflexivity.
Qed.

Lemma click_middle x y :
  click MiddleBox (instance_of x y) =
    Updated (instance_of x (Number.add y (Number.ofZ 1))).
Proof.
  run_hooks. rewrite andb_true_r.
  destruct (Number.objectIs (Number.add y (Number.ofZ 1)) y) eqn:E;
    run_hooks; [|reflexivity].
  apply objectIs_eq in E. rewrite E. reflexivity.
Qed.

Lemma click_right x y : click RightBox (instance_of x y) = Ignored.
Proof. reflexivity. Qed.

Lemma read_instance x y : read (instance_of x y) = Some (x, y, Number.add x y).
Proof. reflexivity. Qed.

(** *** Counters in range *)

Lemma in_range_0 : in_range 0.
Proof. unfold in_range. rewrite limit_eq. lia. Qed.

Lemma in_range_limit : in_range Number.limit.
Proof. unfold in_range. rewrite limit_eq. lia. Qed.

Lemma in_range_saturate z : 0 <= z -> in_range (saturate z).
Proof. unfold in_range, saturate. rewrite limit_eq. lia. Qed.

Lemma in_range_succ a : in_range a -> in_range (saturate (a + 1)).
Proof. intros [H _]. apply in_range_saturate. lia. Qed.

Lemma saturate_in_range a : in_range a -> saturate a = a.
Proof. unfold in_range, saturate. lia. Qed.

Create HintDb range.
#[export] Hint Resolve in_range_0 in_range_limit in_range_succ : range.

(** Side conditions on the range of a counter or of a number of clicks. *)
Ltac range :=
  solve [ auto with range
        | unfold in_range in *; rewrite ?limit_eq in *; lia ].

Lemma click_left_counting l m :
  in_range l ->
  click LeftBox (counting l m) = Updated (counting (saturate (l + 1)) m).
Proof.
  intros Hl. unfold counting. now rewrite click_left, add_one.
Qed.

Lemma click_middle_counting l m :
  in_range m ->
  click MiddleBox (counting l m) = Updated (counting l (saturate (m + 1))).
Proof.
  intros Hm. unfold counting. now rewrite click_middle, add_one.
Qed.

Lemma step_left l m :
  in_range l -> step (counting l m) LeftBox = counting (saturate (l + 1)) m.
Proof. intros H. unfold step. now rewrite click_left_counting. Qed.

Lemma step_middle l m :
  in_range m -> step (counting l m) MiddleBox = counting l (saturate (m + 1)).
Proof. intros H. unfold step. now rewrite click_middle_counting. Qed.

Lemma step_right l m : step (counting l m) RightBox = counting l m.
Proof. reflexivity. Qed.

Lemma increment_counting which l m :
  in_range l -> in_range m ->
  increment which (counting l m) =
    Updated (match which with
             | LeftCounter => counting (saturate (l + 1)) m
             | MiddleCounter => counting l (saturate (m + 1))
             end).
Proof.
  intros Hl Hm.
  destruct which; [now apply click_left_counting | now apply click_middle_counting].
Qed.

(** What is on screen, and in the cells, of a counting instance. *)
Lemma display_counting l m :
  in_range l -> in_range m ->
  display (counting l m) = Some (l, m, Number.round (l + m)).
Proof.
  intros Hl Hm. unfold display, counting. rewrite read_instance.
  now rewrite !toZ_ofZ_exact, toZ_add.
Qed.

Lemma valueOf_counting which l m :
  in_range l -> in_range m ->
  valueOf which (counting l m) =
    Some (match which with LeftCounter => l | MiddleCounter => m end).
Proof.
  intros Hl Hm. destruct which; unfold valueOf; cbn [cellOf];
    [change (leftCount (counting l m)) with (Some (Number.ofZ l))
    |change (middleCount (counting l m)) with (Some (Number.ofZ m))];
    now apply toZ_ofZ_exact.
Qed.

(** *** The invariant of the reachable instances *)

Lemma tidy_counting l m : in_range l -> in_range m -> tidy (counting l m).
Proof. intros Hl Hm. exists l, m. auto. Qed.

Lemma tidy_step i r : tidy i -> tidy (step i r).
Proof.
  intros (l & m & Hl & Hm & ->).
  destruct r; rewrite ?step_left, ?step_middle, ?step_right by assumption;
    apply tidy_counting; auto with range.
Qed.

Lemma click_step i r i' : click r i = Updated i' -> step i r = i'.
Proof. unfold step. now intros ->. Qed.

Lemma reachable_tidy i : reachable i -> tidy i.
Proof.
  induction 1 as [i Hm | i r i' _ IH Hc].
  - rewrite mount_instance in Hm. injection Hm as <-.
    apply tidy_counting; auto with range.
  - apply click_step in Hc as <-. now apply tidy_step.
Qed.

Lemma reachable_step i r : reachable i -> reachable (step i r).
Proof.
  intros H. unfold step. destruct (click r i) eqn:E; try exact H.
  exact (reachable_click _ _ _ H E).
Qed.

Lemma run_app a b i : run (a ++ b) i = run b (run a i).
Proof. apply fold_left_app. Qed.

Lemma reachable_run clicks : forall i, reachable i -> reachable (run clicks i).
Proof.
  induction clicks as [|r clicks IH]; intros i H; [exact H|].
  apply IH, reachable_step, H.
Qed.

(** *** Counting clicks *)

Lemma clicksOn_nonneg r clicks : 0 <= clicksOn r clicks.
Proof. unfold clicksOn. lia. Qed.

Lemma clicksOn_cons r r' clicks :
  clicksOn r (r' :: clicks) =
    (if Region_eq_dec r' r then 1 else 0) + clicksOn r clicks.
Proof.
  unfold clicksOn. cbn [count_occ].
  destruct (Region_eq_dec r' r); lia.
Qed.

Lemma clicksOn_repeat r r' n :
  clicksOn r (repeat r' n) = if Region_eq_dec r' r then Z.of_nat n else 0.
Proof.
  induction n as [|n IH]; [now destruct (Region_eq_dec r' r)|].
  cbn [repeat]. rewrite clicksOn_cons, IH.
  destruct (Region_eq_dec r' r); lia.
Qed.

Lemma clicksOn_app r a b : clicksOn r (a ++ b) = clicksOn r a + clicksOn r b.
Proof. unfold clicksOn. rewrite count_occ_app. lia. Qed.

(** The clicks on the two counter boxes are among the clicks. *)
Lemma clicksOn_length clicks :
  clicksOn LeftBox clicks + clicksOn MiddleBox clicks
    <= Z.of_nat (List.length clicks).
Proof.
  induction clicks as [|r clicks IH]; [reflexivity|].
  rewrite !clicksOn_cons. cbn [List.length]. rewrite Nat2Z.inj_succ.
  destruct r;
    repeat match goal with
           | |- context [Region_eq_dec ?a ?b] =>
               destruct (Region_eq_dec a b); try discriminate; try contradiction
           end; lia.
Qed.

(** The instance after a sequence of clicks only depends on how many
    of them landed on each box. *)
Lemma run_counts clicks : forall l m,
  in_range l -> in_range m ->
  run clicks (counting l m) =
    counting (saturate (l + clicksOn LeftBox clicks))
             (saturate (m + clicksOn MiddleBox clicks)).
Proof.
  induction clicks as [|r clicks IH]; intros l m Hl Hm.
  - unfold clicksOn. cbn [count_occ Z.of_nat run fold_left].
    rewrite !Z.add_0_r, !saturate_in_range by assumption.
    reflexivity.
  - pose proof (clicksOn_nonneg LeftBox clicks).
    pose proof (clicksOn_nonneg MiddleBox clicks).
    change (run (r :: clicks) (counting l m))
      with (run clicks (step (counting l m) r)).
    rewrite !clicksOn_cons.
    destruct r; rewrite ?step_left, ?step_middle, ?step_right by assumption;
      rewrite IH by auto with range;
      repeat match goal with
             | |- context [Region_eq_dec ?a ?b] =>
                 destruct (Region_eq_dec a b); try discriminate; try contradiction
             end;
      unfold in_range, saturate in *; f_equal; lia.
Qed.

Lemma reachable_0 : reachable (counting 0 0).
Proof. apply reachable_mount, mount_instance. Qed.

Lemma run_left_clicks n l m :
  in_range l -> in_range m -> 0 <= n ->
  run (repeat LeftBox (Z.to_nat n)) (counting l m) = counting (saturate (l + n)) m.
Proof.
  intros Hl Hm Hn. rewrite run_counts, !clicksOn_repeat by assumption.
  destruct (Region_eq_dec LeftBox LeftBox); [|contradiction].
  destruct (Region_eq_dec LeftBox MiddleBox); [discriminate|].
  rewrite Z2Nat.id, Z.add_0_r, (saturate_in_range m) by assumption.
  reflexivity.
Qed.

Lemma run_middle_clicks n l m :
  in_range l -> in_range m -> 0 <= n ->
  run (repeat MiddleBox (Z.to_nat n)) (counting l m) = counting l (saturate (m + n)).
Proof.
  intros Hl Hm Hn. rewrite run_counts, !clicksOn_repeat by assumption.
  destruct (Region_eq_dec MiddleBox MiddleBox); [|contradiction].
  destruct (Region_eq_dec MiddleBox LeftBox); [discriminate|].
  rewrite Z2Nat.id, Z.add_0_r, (saturate_in_range l) by assumption.
  reflexivity.
Qed.

(** Every pair of counters in range shows up after enough clicks. *)
Lemma reachable_counting l m :
  in_range l -> in_range m -> reachable (counting l m).
Proof.
  intros Hl Hm.
  pose proof (reachable_run
    (repeat LeftBox (Z.to_nat l) ++ repeat MiddleBox (Z.to_nat m)) _ reachable_0) as H.
  rewrite run_app, run_left_clicks in H by range.
  rewrite run_middle_clicks in H by (try apply in_range_saturate; range).
  now rewrite !Z.add_0_l, !saturate_in_range in H.
Qed.

Lemma tidy_reachable i : tidy i -> reachable i.
Proof. intros (l & m & Hl & Hm & ->). now apply reachable_counting. Qed.

End WidgetFacts.

(** ** Properties of the widget *)

Module Properties.
Import React Widget NumberFacts WidgetFacts.

Local Abbreviation limit := Number.limit.

(** C3.  Before any interaction the mounted component holds zero in both
    counters and shows 0, 0 and 0. *)
Theorem initial_state_zero :
  exists i, mount = Some i /\
    leftCount i = Some (Number.ofZ 0) /\ middleCount i = Some (Number.ofZ 0) /\
    valueOf LeftCounter i = Some 0 /\ valueOf MiddleCounter i = Some 0 /\
    display i = Some (0, 0, 0).
Proof. exists (counting 0 0). repeat split. Qed.

(** C1, as stated, fails: after [2^53] clicks on the left box and one on
    the middle box the screen reads [9007199254740992 + 1 =
    9007199254740992]. *)
Lemma total_misses_sum_past_limit :
  mount = Some (counting 0 0) /\
  display (run (repeat LeftBox (Z.to_nat limit) ++ [MiddleBox]) (counting 0 0))
    = Some (limit, 1, limit) /\
  limit <> limit + 1.
Proof.
  split; [reflexivity|]. split; [|lia].
  rewrite run_app, run_left_clicks by range.
  change (run [MiddleBox] ?i) with (step i MiddleBox).
  rewrite step_middle, display_counting by range.
  reflexivity.
Qed.

(** C1, amended.  After every sequence of clicks from the mounted
    component, the total on screen is the [number] sum [leftCount +
    middleCount] of the two state cells, and no other hook cell holds
    state; as integers, it is the sum of the two counters rounded to the
    nearest double, which is their exact sum when that is at most [2^53]
    and is never off by more than one.  Each counter is the number of
    clicks on its box, up to [2^53], so the two counters add up to at most
    the number of clicks: after any sequence of at most [2^53] clicks the
    total is the exact sum. *)
Theorem total_is_rounded_sum clicks i :
  mount = Some i ->
  exists x y l m,
    leftCount (run clicks i) = Some x /\
    middleCount (run clicks i) = Some y /\
    read (run clicks i) = Some (x, y, Number.add x y) /\
    (forall n, (2 <= n)%nat -> stateOf n (run clicks i) = None) /\
    Number.toZ x = Some l /\ Number.toZ y = Some m /\
    display (run clicks i) = Some (l, m, Number.round (l + m)) /\
    (l + m <= limit -> display (run clicks i) = Some (l, m, l + m)) /\
    Z.abs (Number.round (l + m) - (l + m)) <= 1 /\
    l = Z.min (clicksOn LeftBox clicks) limit /\
    m = Z.min (clicksOn MiddleBox clicks) limit /\
    l + m <= Z.of_nat (List.length clicks) /\
    (Z.of_nat (List.length clicks) <= limit ->
     display (run clicks i) = Some (l, m, l + m)).
Proof.
  intros Hm. rewrite mount_instance in Hm. injection Hm as <-.
  pose proof (clicksOn_nonneg LeftBox clicks) as HL.
  pose proof (clicksOn_nonneg MiddleBox clicks) as HM.
  pose proof (clicksOn_length clicks) as Hlen.
  rewrite run_counts by auto with range. rewrite !Z.add_0_l.
  set (l := saturate (clicksOn LeftBox clicks)).
  set (m := saturate (clicksOn MiddleBox clicks)).
  assert (Hl : in_range l) by now apply in_range_saturate.
  assert (Hmid : in_range m) by now apply in_range_saturate.
  assert (Hsum : l + m <= Z.of_nat (List.length clicks))
    by (unfold l, m, saturate; lia).
  exists (Number.ofZ l), (Number.ofZ m), l, m.
  do 3 (split; [reflexivity|]). split.
  { intros n Hn. do 2 (destruct n as [|n]; [lia|]).
    do 2 (destruct n as [|n]; [reflexivity|]). now destruct n. }
  rewrite !toZ_ofZ_exact, display_counting by assumption.
  do 3 (split; [reflexivity|]). unfold in_range in *.
  split; [intros H; rewrite round_exact by lia; reflexivity|].
  split; [apply round_close; lia|].
  do 2 (split; [reflexivity|]). split; [exact Hsum|].
  intros H. rewrite round_exact by lia. reflexivity.
Qed.

Lemma total_is_rounded_sum_witness :
  mount = Some (counting 0 0) /\
  Z.of_nat (List.length [LeftBox; MiddleBox; LeftBox]) <= limit /\
  display (run [LeftBox; MiddleBox; LeftBox] (counting 0 0)) = Some (2, 1, 2 + 1).
Proof.
  split; [reflexivity|]. split; [vm_compute; discriminate|].
  destruct (total_is_rounded_sum [LeftBox; MiddleBox; LeftBox] (counting 0 0))
    as (x & y & l & m & _ & _ & _ & _ & _ & _ & _ & _ & _ & Hl & Hm & _ & H);
    [reflexivity|].
  rewrite H by (vm_compute; discriminate). rewrite Hl, Hm. reflexivity.
Defined.

(** C2, as stated, fails: [2^53 + 1] clicks on the left box and none on
    the middle box leave [2^53], not [2^53 + 1], in the left box. *)
Lemma left_display_stops_at_limit :
  clicksOn LeftBox (repeat LeftBox (Z.to_nat (limit + 1))) = limit + 1 /\
  clicksOn MiddleBox (repeat LeftBox (Z.to_nat (limit + 1))) = 0 /\
  display (run (repeat LeftBox (Z.to_nat (limit + 1))) (counting 0 0))
    = Some (limit, 0, limit) /\
  Some (limit, 0, limit) <> Some (limit + 1, 0, limit + 1 + 0).
Proof.
  rewrite !clicksOn_repeat.
  destruct (Region_eq_dec LeftBox LeftBox); [|contradiction].
  destruct (Region_eq_dec LeftBox MiddleBox); [discriminate|].
  rewrite Z2Nat.id by range.
  rewrite run_left_clicks, display_counting by (try apply in_range_saturate; range).
  repeat split. intros H. injection H. lia.
Qed.

(** C2, amended.  A sequence of clicks with [n <= 2^53] clicks on the
    left box and [m <= 2^53] on the middle box, in any order, ends with
    left = n and middle = m; the total shown is [n + m] rounded to the
    nearest double, which is [n + m] when [n + m <= 2^53].  Two left
    clicks and three middle clicks, in any order, show 2, 3 and 5. *)
Theorem clicks_yield_counts clicks i :
  mount = Some i ->
  clicksOn LeftBox clicks <= limit ->
  clicksOn MiddleBox clicks <= limit ->
  let n := clicksOn LeftBox clicks in
  let m := clicksOn MiddleBox clicks in
  valueOf LeftCounter (run clicks i) = Some n /\
  valueOf MiddleCounter (run clicks i) = Some m /\
  display (run clicks i) = Some (n, m, Number.round (n + m)) /\
  (n + m <= limit -> display (run clicks i) = Some (n, m, n + m)) /\
  (n = 2 -> m = 3 -> display (run clicks i) = Some (2, 3, 5)).
Proof.
  intros Hm Hn Hmid n m. subst n m.
  rewrite mount_instance in Hm. injection Hm as <-.
  pose proof (clicksOn_nonneg LeftBox clicks).
  pose proof (clicksOn_nonneg MiddleBox clicks).
  rewrite run_counts by auto with range.
  rewrite !Z.add_0_l, !saturate_in_range by (unfold in_range; lia).
  rewrite !valueOf_counting, display_counting by (unfold in_range; lia).
  do 3 (split; [reflexivity|]). split.
  - intros Hs. rewrite round_exact by lia. reflexivity.
  - intros -> ->. reflexivity.
Qed.

Lemma clicks_yield_counts_witness :
  mount = Some (counting 0 0) /\
  display (run [LeftBox; MiddleBox; MiddleBox; LeftBox; MiddleBox] (counting 0 0))
    = Some (2, 3, 5).
Proof.
  split; [reflexivity|].
  apply (clicks_yield_counts
           [LeftBox; MiddleBox; MiddleBox; LeftBox; MiddleBox] (counting 0 0));
    try reflexivity; vm_compute; discriminate.
Defined.

(** C4, as stated, fails: the instance with [2^53] in the left counter is
    reachable, and a click on the left box leaves [2^53] there, because
    [9007199254740992 + 1] is [9007199254740992] in binary64. *)
Lemma increment_at_limit_adds_nothing :
  reachable (counting limit 0) /\
  valueOf LeftCounter (counting limit 0) = Some limit /\
  Number.add (Number.ofZ limit) (Number.ofZ 1) = Number.ofZ limit /\
  increment LeftCounter (counting limit 0) = Updated (counting limit 0) /\
  limit <> limit + 1.
Proof.
  split; [apply reachable_counting; range|].
  split; [reflexivity|]. split; [reflexivity|]. split; [|lia].
  rewrite increment_counting by range. reflexivity.
Qed.

(** C4, amended.  In every reachable state, a click on the box of a
    counter whose value is below [2^53] increases that counter by exactly
    one. *)
Theorem increment_adds_one which i c :
  reachable i ->
  valueOf which i = Some c ->
  c < limit ->
  exists i', increment which i = Updated i' /\ valueOf which i' = Some (c + 1).
Proof.
  intros Hr Hv Hc. apply reachable_tidy in Hr as (l & m & Hl & Hm & ->).
  rewrite increment_counting by assumption. eexists; split; [reflexivity|].
  rewrite valueOf_counting in Hv by assumption.
  destruct which; injection Hv as ->;
    rewrite valueOf_counting by auto with range;
    f_equal; unfold saturate, in_range in *; lia.
Qed.

Lemma increment_adds_one_witness :
  reachable (counting 0 0) /\
  valueOf MiddleCounter (counting 0 0) = Some 0 /\
  0 < limit /\
  exists i', increment MiddleCounter (counting 0 0) = Updated i' /\
             valueOf MiddleCounter i' = Some (0 + 1).
Proof.
  assert (Hr : reachable (counting 0 0))
    by (apply reachable_mount; reflexivity).
  assert (Hc : 0 < limit) by reflexivity.
  repeat split; try assumption.
  exact (increment_adds_one MiddleCounter (counting 0 0) 0 Hr eq_refl Hc).
Defined.

(** C5, as stated, fails: the instance with [2^53] in both counters is
    reachable and no click changes it, so a counter is not always
    strictly increased by its own increment and the counters are
    bounded. *)
Lemma both_counters_stuck_at_limit :
  reachable (counting limit limit) /\
  step (counting limit limit) LeftBox = counting limit limit /\
  step (counting limit limit) MiddleBox = counting limit limit /\
  step (counting limit limit) RightBox = counting limit limit.
Proof.
  split; [apply reachable_counting; range|].
  rewrite step_left, step_middle, step_right by range. repeat split.
Qed.

(** C5, amended.  Every reachable state holds two integer counters
    between [0] and [2^53].  A click on a counter's box is always handled;
    it strictly increases that counter while it is below [2^53] and leaves
    it at [2^53] afterwards.  No click on any box decreases a counter. *)
Theorem counters_bounded_monotone i :
  reachable i ->
  exists l m,
    valueOf LeftCounter i = Some l /\ valueOf MiddleCounter i = Some m /\
    0 <= l <= limit /\ 0 <= m <= limit /\
    (forall which, exists i' c c',
        increment which i = Updated i' /\
        valueOf which i = Some c /\ valueOf which i' = Some c' /\
        (c < limit -> c < c') /\ (c = limit -> c' = limit)) /\
    (forall r, exists l' m',
        valueOf LeftCounter (step i r) = Some l' /\
        valueOf MiddleCounter (step i r) = Some m' /\
        l <= l' /\ m <= m').
Proof.
  intros Hr. apply reachable_tidy in Hr as (l & m & Hl & Hm & ->).
  exists l, m. rewrite !valueOf_counting by assumption.
  do 2 (split; [reflexivity|]). do 2 (split; [assumption|]).
  pose proof (in_range_succ l Hl) as Sl. pose proof (in_range_succ m Hm) as Sm.
  split.
  - intros which. rewrite increment_counting by assumption.
    destruct which; do 3 eexists; (split; [reflexivity|]);
      rewrite !valueOf_counting by assumption;
      (split; [reflexivity|]); (split; [reflexivity|]);
      unfold saturate, in_range in *; lia.
  - intros r.
    destruct r; rewrite ?step_left, ?step_middle, ?step_right by assumption;
      do 2 eexists; rewrite !valueOf_counting by assumption;
      (split; [reflexivity|]); (split; [reflexivity|]);
      unfold saturate, in_range in *; lia.
Qed.

Lemma counters_bounded_monotone_witness :
  reachable (counting 0 0) /\
  exists l m, valueOf LeftCounter (counting 0 0) = Some l /\
              valueOf MiddleCounter (counting 0 0) = Some m /\
              0 <= l <= limit /\ 0 <= m <= limit.
Proof.
  assert (Hr : reachable (counting 0 0))
    by (apply reachable_mount; reflexivity).
  split; [exact Hr|].
  destruct (counters_bounded_monotone (counting 0 0) Hr)
    as (l & m & H1 & H2 & H3 & H4 & _).
  exists l, m. repeat split; solve [assumption | apply H3 | apply H4].
Defined.

(** C6.  In every reachable state a click on the left box is handled and
    leaves the middle counter as it was, and a click on the middle box is
    handled and leaves the left counter as it was. *)
Theorem increments_are_independent i :
  reachable i ->
  (exists i', increment LeftCounter i = Updated i' /\
              middleCount i' = middleCount i /\
              valueOf MiddleCounter i' = valueOf MiddleCounter i) /\
  (exists i', increment MiddleCounter i = Updated i' /\
              leftCount i' = leftCount i /\
              valueOf LeftCounter i' = valueOf LeftCounter i).
Proof.
  intros Hr. apply reachable_tidy in Hr as (l & m & Hl & Hm & ->).
  rewrite !increment_counting by assumption.
  split; eexists; repeat split.
Qed.

Lemma increments_are_independent_witness :
  reachable (counting 0 0) /\
  (exists i', increment LeftCounter (counting 0 0) = Updated i' /\
              middleCount i' = middleCount (counting 0 0)) /\
  (exists i', increment MiddleCounter (counting 0 0) = Updated i' /\
              leftCount i' = leftCount (counting 0 0)).
Proof.
  assert (Hr : reachable (counting 0 0))
    by (apply reachable_mount; reflexivity).
  split; [exact Hr|].
  destruct (increments_are_independent (counting 0 0) Hr)
    as [(a & Ha & Ha' & _) (b & Hb & Hb' & _)].
  split; [exists a | exists b]; split; assumption.
Defined.

(** C7, as stated, fails: the instance with [2^53] and [3] in its
    counters is reachable and shows [9007199254740992 + 3 =
    9007199254740996]. *)
Lemma read_rounds_past_limit :
  reachable (counting limit 3) /\
  display (counting limit 3) = Some (limit, 3, limit + 4) /\
  limit + 4 <> limit + 3.
Proof.
  split; [apply reachable_counting; range|].
  split; [reflexivity|lia].
Qed.

(** C7, amended.  In every reachable state the three numbers on screen
    are the left counter, the middle counter and their sum rounded to the
    nearest double, which is the exact sum when that is at most [2^53];
    reading them changes nothing, and neither does rendering the component
    again. *)
Theorem read_is_pure_triple i :
  reachable i ->
  exists l m,
    valueOf LeftCounter i = Some l /\ valueOf MiddleCounter i = Some m /\
    display i = Some (l, m, Number.round (l + m)) /\
    (l + m <= limit -> display i = Some (l, m, l + m)) /\
    render (Some (hooks i)) = Some i.
Proof.
  intros Hr. apply reachable_tidy in Hr as (l & m & Hl & Hm & ->).
  exists l, m. rewrite !valueOf_counting, display_counting by assumption.
  do 3 (split; [reflexivity|]). split.
  - intros H. rewrite round_exact by range. reflexivity.
  - apply render_instance.
Qed.

Lemma read_is_pure_triple_witness :
  reachable (counting 0 0) /\
  exists l m,
    display (counting 0 0) = Some (l, m, Number.round (l + m)) /\
    render (Some (hooks (counting 0 0))) = Some (counting 0 0).
Proof.
  assert (Hr : reachable (counting 0 0))
    by (apply reachable_mount; reflexivity).
  split; [exact Hr|].
  destruct (read_is_pure_triple (counting 0 0) Hr)
    as (l & m & _ & _ & H1 & _ & H2).
  exists l, m. split; assumption.
Defined.

(** C8.  In every reachable state a click on the box of either counter
    is handled: the handler runs, the component renders again without
    failing, and the result is again a reachable state.  This includes
    the states in which a counter has stopped at [2^53]. *)
Theorem increment_never_fails i which :
  reachable i ->
  (exists i', increment which i = Updated i' /\ reachable i') /\
  increment which (counting limit limit) = Updated (counting limit limit).
Proof.
  intros Hr. split.
  - destruct (increment which i) as [| i' |] eqn:E.
    + apply reachable_tidy in Hr as (l & m & Hl & Hm & ->).
      rewrite increment_counting in E by assumption. discriminate.
    + exists i'. split; [reflexivity|]. exact (reachable_click _ _ _ Hr E).
    + apply reachable_tidy in Hr as (l & m & Hl & Hm & ->).
      rewrite increment_counting in E by assumption. discriminate.
  - rewrite increment_counting by range. now destruct which.
Qed.

Lemma increment_never_fails_witness :
  reachable (counting 0 0) /\
  exists i', increment LeftCounter (counting 0 0) = Updated i' /\ reachable i'.
Proof.
  assert (Hr : reachable (counting 0 0))
    by (apply reachable_mount; reflexivity).
  split; [exact Hr|].
  exact (proj1 (increment_never_fails (counting 0 0) LeftCounter Hr)).
Defined.

(** C9.  In every reachable state a click on the left box followed by
    one on the middle box gives the same instance, hence the same three
    numbers, as the two clicks in the other order; and two sequences of
    clicks that are permutations of each other, or merely have as many
    clicks on each of the two counter boxes, end in the same instance. *)
Theorem increments_commute i :
  reachable i ->
  step (step i LeftBox) MiddleBox = step (step i MiddleBox) LeftBox /\
  display (step (step i LeftBox) MiddleBox) =
    display (step (step i MiddleBox) LeftBox) /\
  (forall a b, Permutation a b -> run a i = run b i) /\
  (forall a b,
      clicksOn LeftBox a = clicksOn LeftBox b ->
      clicksOn MiddleBox a = clicksOn MiddleBox b ->
      run a i = run b i).
Proof.
  intros Hr. apply reachable_tidy in Hr as (l & m & Hl & Hm & ->).
  assert (Hc : forall a b,
             clicksOn LeftBox a = clicksOn LeftBox b ->
             clicksOn MiddleBox a = clicksOn MiddleBox b ->
             run a (counting l m) = run b (counting l m)).
  { intros a b Ha Hb. rewrite !run_counts by assumption. now rewrite Ha, Hb. }
  assert (Hs : step (step (counting l m) LeftBox) MiddleBox =
               step (step (counting l m) MiddleBox) LeftBox).
  { now rewrite (step_left l m), step_middle, (step_middle l m), step_left. }
  split; [exact Hs|]. split; [now rewrite Hs|]. split; [|exact Hc].
  intros a b Hp. apply Hc; unfold clicksOn; f_equal;
    now apply Permutation_count_occ.
Qed.

Lemma increments_commute_witness :
  reachable (counting 0 0) /\
  step (step (counting 0 0) LeftBox) MiddleBox =
    step (step (counting 0 0) MiddleBox) LeftBox.
Proof.
  assert (Hr : reachable (counting 0 0))
    by (apply reachable_mount; reflexivity).
  split; [exact Hr|].
  exact (proj1 (increments_commute (counting 0 0) Hr)).
Defined.

(** C10.  In every reachable state the box that shows the total carries
    no click handler: a click on it is ignored, so the instance, and with
    it both counters and the three numbers on screen, stay as they
    were. *)
Theorem total_box_click_is_noop i :
  reachable i ->
  (exists t, findDiv (className_of RightBox) (view i) = Some (None, t)) /\
  click RightBox i = Ignored /\
  step i RightBox = i /\
  leftCount (step i RightBox) = leftCount i /\
  middleCount (step i RightBox) = middleCount i /\
  display (step i RightBox) = display i.
Proof.
  intros Hr. apply reachable_tidy in Hr as (l & m & _ & _ & ->).
  split; [eexists; reflexivity|]. repeat split.
Qed.

Lemma total_box_click_is_noop_witness :
  reachable (counting 0 0) /\
  click RightBox (counting 0 0) = Ignored /\
  step (counting 0 0) RightBox = counting 0 0.
Proof.
  assert (Hr : reachable (counting 0 0))
    by (apply reachable_mount; reflexivity).
  split; [exact Hr|].
  destruct (total_box_click_is_noop (counting 0 0) Hr) as (_ & H1 & H2 & _).
  split; assumption.
Defined.

End Properties.

(** ** Further invariants of the widget and of the page *)

Module Invariants.
Import React Widget NumberFacts WidgetFacts.

Local Abbreviation limit := Number.limit.

(** *** Rounding the sum of two counters *)

Lemma even_succ_negb z : Z.even (z + 1) = negb (Z.even z).
Proof. rewrite Z.add_1_r, Z.even_succ, <- Z.negb_even. reflexivity. Qed.

(** One more in the exact sum is zero, one or two more in the rounded
    sum. *)
Lemma round_succ z :
  0 <= z < 2 * limit ->
  Number.round z <= Number.round (z + 1) <= Number.round z + 2.
Proof.
  intros [Hlo Hhi]. pose proof limit_eq as HL.
  destruct (Z_lt_le_dec z limit) as [Hs|Hw].
  - rewrite !round_exact by lia. lia.
  - rewrite !round_wide by lia. rewrite even_succ_negb.
    destruct (Z.even z); cbn [negb];
      [destruct (Z.even ((z + 1) / 2)) | destruct (Z.even (z / 2))]; lia.
Qed.

Lemma round_range z :
  0 <= z <= 2 * limit ->
  Number.round z <= 2 * limit /\
  (limit <= z -> limit <= Number.round z) /\
  (limit < Number.round z -> Z.even (Number.round z) = true).
Proof.
  intros [Hlo Hhi]. pose proof limit_eq as HL.
  destruct (Z_le_gt_dec z limit) as [Hs|Hw].
  - rewrite round_exact by lia. repeat split; lia.
  - rewrite round_wide by lia.
    destruct (Z.even z) eqn:Ez; [repeat split; try lia; now intros _|].
    assert (Ho : Z.odd z = true) by (rewrite <- Z.negb_even, Ez; reflexivity).
    apply Z.odd_spec in Ho as [k Hk].
    assert (Hd : z / 2 = k).
    { symmetry. apply Z.div_unique with (r := 1); lia. }
    rewrite Hd. destruct (Z.even k) eqn:Ek.
    + replace (z - 1) with (2 * k) by lia.
      rewrite Z.even_mul. repeat split; try lia; now intros _.
    + replace (z + 1) with (2 * (k + 1)) by lia.
      rewrite Z.even_mul. repeat split; try lia; now intros _.
Qed.

(** *** The handlers on screen *)

(** X1.  In every reachable state the handler on the box of a counter
    has captured the number that the counter's state cell holds now, the
    box shows that number, and the handler's setter is bound to that very
    cell: no click ever runs a stale closure. *)
Theorem handlers_capture_current_state i which :
  reachable i ->
  exists f x,
    findDiv (className_of (box which)) (view i) = Some (Some f, x) /\
    cellOf which i = Some x /\
    count f = x /\
    nth_error (hooks i) (cell (setCount f)) = Some (StateHook x []).
Proof.
  intros Hr. apply reachable_tidy in Hr as (l & m & _ & _ & ->).
  destruct which; do 2 eexists; repeat split.
Qed.

Lemma handlers_capture_current_state_witness :
  reachable (run [LeftBox; LeftBox] (counting 0 0)) /\
  exists f x,
    findDiv (className_of LeftBox) (view (run [LeftBox; LeftBox] (counting 0 0)))
      = Some (Some f, x) /\
    count f = x /\ Number.toZ x = Some 2.
Proof.
  assert (Hr : reachable (run [LeftBox; LeftBox] (counting 0 0))).
  { apply (reachable_click (run [LeftBox] (counting 0 0)) LeftBox); [|reflexivity].
    apply (reachable_click (counting 0 0) LeftBox); [|reflexivity].
    apply reachable_mount. reflexivity. }
  split; [exact Hr|].
  destruct (handlers_capture_current_state _ LeftCounter Hr)
    as (f & x & Hf & Hx & Hc & _).
  exists f, x. repeat split; try assumption.
  injection Hx as <-. reflexivity.
Defined.

(** *** The reachable states *)

(** X2.  The reachable states are exactly the rendered instances whose
    two counters are integers between [0] and [2^53]: every such pair of
    counters is reached by clicking, and nothing else is. *)
Theorem reachable_iff_counting i :
  reachable i <->
  exists l m, 0 <= l <= limit /\ 0 <= m <= limit /\ i = counting l m.
Proof. split; [apply reachable_tidy | apply tidy_reachable]. Qed.

(** X3.  Two reachable states that hold the same two counters are the
    same instance, with the same hook cells, handlers and screen: nothing
    of the click history is kept but the two counters. *)
Theorem same_counters_same_instance i j :
  reachable i -> reachable j ->
  valueOf LeftCounter i = valueOf LeftCounter j ->
  valueOf MiddleCounter i = valueOf MiddleCounter j ->
  i = j.
Proof.
  intros Hi Hj.
  apply reachable_tidy in Hi as (l & m & Hl & Hm & ->).
  apply reachable_tidy in Hj as (l' & m' & Hl' & Hm' & ->).
  rewrite !valueOf_counting by assumption.
  intros [= ->] [= ->]. reflexivity.
Qed.

Lemma same_counters_same_instance_witness :
  run [LeftBox; MiddleBox; RightBox] (counting 0 0) =
  run [MiddleBox; LeftBox] (counting 0 0).
Proof.
  apply same_counters_same_instance; try reflexivity.
  - apply (reachable_click (run [LeftBox] (counting 0 0)) MiddleBox); [|reflexivity].
    apply (reachable_click (counting 0 0) LeftBox); [|reflexivity].
    apply reachable_mount. reflexivity.
  - apply (reachable_click (run [MiddleBox] (counting 0 0)) LeftBox); [|reflexivity].
    apply (reachable_click (counting 0 0) MiddleBox); [|reflexivity].
    apply reachable_mount. reflexivity.
Defined.

(** X4.  From any reachable state, any sequence of clicks adds to each
    counter the number of clicks on its box, up to [2^53], where the
    counter stays: left becomes [min (l + clicks on left) 2^53] and
    middle [min (m + clicks on middle) 2^53], whatever the order and
    however many clicks land on the total's box. *)
Theorem clicks_add_up_to_limit i l m clicks :
  reachable i ->
  valueOf LeftCounter i = Some l ->
  valueOf MiddleCounter i = Some m ->
  valueOf LeftCounter (run clicks i) =
    Some (Z.min (l + clicksOn LeftBox clicks) limit) /\
  valueOf MiddleCounter (run clicks i) =
    Some (Z.min (m + clicksOn MiddleBox clicks) limit).
Proof.
  intros Hr. apply reachable_tidy in Hr as (l0 & m0 & Hl & Hm & ->).
  rewrite !valueOf_counting by assumption. intros [= ->] [= ->].
  pose proof (clicksOn_nonneg LeftBox clicks).
  pose proof (clicksOn_nonneg MiddleBox clicks).
  rewrite run_counts by assumption.
  rewrite !valueOf_counting by (apply in_range_saturate; unfold in_range in *; lia).
  split; reflexivity.
Qed.

Lemma clicks_add_up_to_limit_witness :
  valueOf LeftCounter (run [MiddleBox; LeftBox; RightBox; LeftBox] (counting 0 0))
    = Some (Z.min (0 + 2) limit) /\
  valueOf MiddleCounter (run [MiddleBox; LeftBox; RightBox; LeftBox] (counting 0 0))
    = Some (Z.min (0 + 1) limit).
Proof.
  apply (clicks_add_up_to_limit (counting 0 0) 0 0
           [MiddleBox; LeftBox; RightBox; LeftBox]); try reflexivity.
  apply reachable_mount. reflexivity.
Defined.

(** *** The total on screen *)

(** X5.  A click on any box never lowers the total on screen, and raises
    it by at most two: by exactly the change of the counters while the sum
    is at most [2^53], by zero or two once the sum is rounded. *)
Theorem click_raises_total i r :
  reachable i ->
  exists l m t l' m' t',
    display i = Some (l, m, t) /\
    display (step i r) = Some (l', m', t') /\
    t <= t' <= t + 2 /\
    (l' + m' <= limit -> t' - t = (l' - l) + (m' - m)).
Proof.
  intros Hr. apply reachable_tidy in Hr as (l & m & Hl & Hm & ->).
  pose proof limit_eq as HL.
  assert (Hstep : forall l' m', in_range l' -> in_range m' ->
            (l' + m' = l + m \/ l' + m' = l + m + 1) ->
            exists a b t a' b' t',
              display (counting l m) = Some (a, b, t) /\
              display (counting l' m') = Some (a', b', t') /\
              t <= t' <= t + 2 /\
              (a' + b' <= limit -> t' - t = (a' - a) + (b' - b))).
  { intros l' m' Hl' Hm' Hs. rewrite !display_counting by assumption.
    do 6 eexists. do 2 (split; [reflexivity|]).
    unfold in_range in *. split.
    - destruct Hs as [Hs|Hs]; rewrite Hs; [lia|]. apply round_succ. lia.
    - intros Hle. rewrite !round_exact by lia. lia. }
  unfold in_range in Hl, Hm.
  destruct r; rewrite ?step_left, ?step_middle, ?step_right by assumption;
    apply Hstep; try assumption; try apply in_range_saturate;
    unfold in_range, saturate; lia.
Qed.

Lemma click_raises_total_witness :
  reachable (counting 0 0) /\
  exists l m t l' m' t',
    display (counting 0 0) = Some (l, m, t) /\
    display (step (counting 0 0) MiddleBox) = Some (l', m', t') /\
    t <= t' <= t + 2.
Proof.
  assert (Hr : reachable (counting 0 0))
    by (apply reachable_mount; reflexivity).
  split; [exact Hr|].
  destruct (click_raises_total (counting 0 0) MiddleBox Hr)
    as (l & m & t & l' & m' & t' & H1 & H2 & H3 & _).
  exists l, m, t, l', m', t'. repeat split; solve [assumption | apply H3].
Defined.

(** X6.  In every reachable state the total on screen is at least each
    of the two counters and at most [2^54], and it is even whenever it
    exceeds [2^53]. *)
Theorem total_range i :
  reachable i ->
  exists l m t,
    display i = Some (l, m, t) /\
    l <= t /\ m <= t /\ t <= 2 * limit /\
    (limit < t -> Z.even t = true).
Proof.
  intros Hr. apply reachable_tidy in Hr as (l & m & Hl & Hm & ->).
  rewrite display_counting by assumption. do 3 eexists. split; [reflexivity|].
  unfold in_range in *.
  destruct (round_range (l + m)) as (H1 & H2 & H3); [lia|].
  destruct (Z_le_gt_dec (l + m) limit) as [Hs|Hw].
  - rewrite round_exact in * by lia. repeat split; try lia; exact H3.
  - assert (limit <= Number.round (l + m)) by (apply H2; lia).
    repeat split; try lia; exact H3.
Qed.

Lemma total_range_witness :
  reachable (counting 0 0) /\
  exists l m t, display (counting 0 0) = Some (l, m, t) /\ l <= t /\ m <= t.
Proof.
  assert (Hr : reachable (counting 0 0))
    by (apply reachable_mount; reflexivity).
  split; [exact Hr|].
  destruct (total_range (counting 0 0) Hr) as (l & m & t & H1 & H2 & H3 & _).
  exists l, m, t. repeat split; assumption.
Defined.

(** X7.  In every reachable state the equation on screen, left + middle
    = total, is arithmetically true exactly when the sum of the two
    counters is at most [2^53] or even. *)
Theorem screen_equation_true_iff i :
  reachable i ->
  exists l m t,
    display i = Some (l, m, t) /\
    (t = l + m <-> l + m <= limit \/ Z.even (l + m) = true).
Proof.
  intros Hr. apply reachable_tidy in Hr as (l & m & Hl & Hm & ->).
  rewrite display_counting by assumption. do 3 eexists. split; [reflexivity|].
  unfold in_range in *. pose proof limit_eq as HL.
  destruct (Z_le_gt_dec (l + m) limit) as [Hs|Hw].
  - rewrite round_exact by lia. split; auto.
  - rewrite round_wide by lia.
    destruct (Z.even (l + m)); [split; auto|].
    destruct (Z.even ((l + m) / 2)); split; intros H;
      try lia; destruct H as [H|H]; try lia; discriminate.
Qed.

Lemma screen_equation_true_iff_witness :
  reachable (counting 0 0) /\
  exists l m t, display (counting 0 0) = Some (l, m, t) /\ t = l + m.
Proof.
  assert (Hr : reachable (counting 0 0))
    by (apply reachable_mount; reflexivity).
  split; [exact Hr|].
  destruct (screen_equation_true_iff (counting 0 0) Hr) as (l & m & t & H1 & H2).
  exists l, m, t. split; [exact H1|].
  injection H1 as <- <- <-. apply H2. left. vm_compute. discriminate.
Defined.

(** *** The page *)

(** X8.  On the page that [Home] renders, in every reachable state, a
    click does something only when it lands on the left or on the middle
    box, where it does what the box's handler does; a click on a glyph, on
    the total's box or on the container around the widget is ignored. *)
Theorem page_click i t :
  reachable i ->
  Page.dispatch t i =
    match t with
    | Page.Child 0 => click LeftBox i
    | Page.Child 2 => click MiddleBox i
    | _ => Ignored
    end.
Proof.
  intros Hr. apply reachable_tidy in Hr as (l & m & _ & _ & ->).
  destruct t as [n|]; [|reflexivity].
  do 5 (destruct n as [|n]; [reflexivity|]). now destruct n.
Qed.

Lemma page_click_witness :
  reachable (counting 0 0) /\
  Page.dispatch (Page.Child 1) (counting 0 0) = Ignored /\
  Page.dispatch (Page.Child 2) (counting 0 0) = click MiddleBox (counting 0 0).
Proof.
  assert (Hr : reachable (counting 0 0))
    by (apply reachable_mount; reflexivity).
  split; [exact Hr|]. split.
  - exact (page_click (counting 0 0) (Page.Child 1) Hr).
  - exact (page_click (counting 0 0) (Page.Child 2) Hr).
Defined.

End Invariants.
